(** * qemu-vsock-send: a shallow embedding of [src/tools/qemu-vsock-send.cpp]

    The tool opens an [AF_VSOCK] stream socket, connects it to the host at
    port 9999, sends its command-line arguments as one line, performs one
    [recv] into a 4096-byte buffer and prints what it got.

    The program is sequential and every system call is issued once, so the
    operating system is modelled as an oracle ([os]) that answers each
    call from its arguments; the program itself is written in a small
    monad that threads the process state (the log of system calls, the two
    output streams) and carries the two ways the C++ code can leave the
    normal control flow: the exception of [m3_string_format], an access
    past the end of a [char] array, and the SIGPIPE that [send] raises
    when the peer has shut the connection down.  Blocking and signals
    sent from outside are not modelled. *)

From Stdlib Require Import ZArith Ascii String List Bool Lia.
Import ListNotations.
Local Open Scope Z_scope.

(** ** Machine integers of the LP64 Linux ABI *)

Module CInt.

Definition INT_MAX : Z := 2147483647.

(** Conversion to [int]: two's complement wrap-around on 32 bits. *)
Definition to_int (z : Z) : Z := (z + 2 ^ 31) mod 2 ^ 32 - 2 ^ 31.

(** Conversion to [size_t]: reduction modulo 2^64. *)
Definition to_size_t (z : Z) : Z := z mod 2 ^ 64.

End CInt.

(** ** Characters, arrays of characters, C strings *)

Definition chars := list ascii.

Definition NUL : ascii := Ascii.zero.
Definition SP : ascii := " "%char.
Definition LF : ascii := "010"%char.

(** A string literal of the source, without its terminator. *)
Definition lit (s : string) : chars := list_ascii_of_string s.

(** The array behind a [char *] that points to a C string with content [t]. *)
Definition c_array (t : chars) : chars := t ++ [NUL].

(** The characters of an array before its first NUL. *)
Fixpoint until_nul (a : chars) : chars :=
  match a with
  | [] => []
  | c :: rest => if Ascii.eqb c NUL then [] else c :: until_nul rest
  end.

Definition nul_free (t : chars) : Prop := Forall (fun c => c <> NUL) t.

Definition nul_freeb (t : chars) : bool :=
  forallb (fun c => negb (Ascii.eqb c NUL)) t.

(** The [%s] conversion of the printf family applied to a [char] array,
    with an optional precision ([%.*s]).  It examines the array from its
    start and stops when the precision is exhausted or at a NUL.  The
    result is the text produced together with the number of array
    elements examined; [None] is a read past the end of the array. *)
Fixpoint conv_s (prec : option nat) (arr : chars) : option (chars * nat) :=
  match prec with
  | Some O => Some ([], O)
  | _ =>
      match arr with
      | [] => None
      | c :: rest =>
          if Ascii.eqb c NUL then Some ([], 1%nat)
          else
            match conv_s (option_map Nat.pred prec) rest with
            | Some (t, n) => Some (c :: t, S n)
            | None => None
            end
      end
  end.

(** The precision argument of [%.*s] is an [int]; a negative value counts
    as no precision at all. *)
Definition precision (p : Z) : option nat :=
  if p <? 0 then None else Some (Z.to_nat p).

(** ** The operating system *)

(** Constants of [<sys/socket.h>], [<linux/vm_sockets.h>] and [<cstdlib>]. *)
Definition AF_VSOCK : Z := 40.
Definition SOCK_STREAM : Z := 1.
Definition VMADDR_CID_HOST : Z := 2.
Definition EXIT_SUCCESS : Z := 0.
Definition EXIT_FAILURE : Z := 1.

Record sockaddr_vm := {
  svm_family : Z;
  svm_reserved1 : Z;
  svm_port : Z;
  svm_cid : Z;
  svm_zero : Z
}.

Definition sizeof_sockaddr_vm : Z := 16.

(** [memset (&addr, 0, sizeof (struct sockaddr_vm))] *)
Definition zeroed_sockaddr_vm : sockaddr_vm :=
  {| svm_family := 0; svm_reserved1 := 0; svm_port := 0; svm_cid := 0;
     svm_zero := 0 |}.

(** The system calls the process issues, with their arguments. *)
Inductive event :=
| EvSocket (domain type protocol : Z)
| EvConnect (fd : Z) (addr : sockaddr_vm) (addrlen : Z)
| EvSend (fd : Z) (data : chars) (len flags : Z)
| EvRecv (fd : Z) (len flags : Z).

(** What one [recv] call finds: an error, or the bytes the stream has
    ready for this call (an empty list at end of stream). *)
Inductive reply :=
| Failed
| Delivered (data : chars).

(** What one [send] call meets: it returns a value, or the peer has shut
    the connection down and the kernel raises SIGPIPE ([main] passes no
    [MSG_NOSIGNAL] and installs no handler, so the signal is fatal). *)
Inductive send_answer :=
| Sent (n : Z)
| Sigpipe.

Definition SIGPIPE : Z := 13.

(** The answers of the operating system to the calls of one run. *)
Record os := {
  os_socket : Z -> Z -> Z -> Z;
  os_connect : Z -> sockaddr_vm -> Z -> Z;
  os_send : Z -> chars -> Z -> Z -> send_answer;
  os_recv : Z -> Z -> Z -> reply
}.

(** The answers of a kernel all of whose calls return to the caller. *)
Record kernel := {
  k_socket : Z -> Z -> Z -> Z;
  k_connect : Z -> sockaddr_vm -> Z -> Z;
  k_send : Z -> chars -> Z -> Z -> Z;
  k_recv : Z -> Z -> Z -> reply
}.

Definition returning (k : kernel) : os :=
  {| os_socket := k_socket k;
     os_connect := k_connect k;
     os_send := fun fd data len flags => Sent (k_send k fd data len flags);
     os_recv := k_recv k |}.

(** ** The process monad *)

Record process := {
  syscalls : list event;      (* system calls issued so far, oldest first *)
  out_stream : chars;         (* standard output *)
  err_stream : chars;         (* standard error *)
  arena : chars;              (* the array handed to recv, as it was then *)
  stored : nat;               (* elements of that array written by recv *)
  examined : nat              (* elements of [buf] read by printf *)
}.

Definition fresh_process : process :=
  {| syscalls := []; out_stream := []; err_stream := []; arena := [];
     stored := 0; examined := 0 |}.

Inductive result (A : Type) :=
| Val (a : A)
| Throw (what : string)       (* a C++ exception in flight *)
| Fault                       (* an access outside an array *)
| Signal (signo : Z).         (* a fatal signal *)
Arguments Val {A} a.
Arguments Throw {A} what.
Arguments Fault {A}.
Arguments Signal {A} signo.

Definition M (A : Type) : Type := process -> result A * process.

Definition ret {A} (a : A) : M A := fun p => (Val a, p).

Definition bind {A B} (m : M A) (f : A -> M B) : M B :=
  fun p =>
    match m p with
    | (Val a, p') => f a p'
    | (Throw w, p') => (Throw w, p')
    | (Fault, p') => (Fault, p')
    | (Signal n, p') => (Signal n, p')
    end.

Definition throw {A} (what : string) : M A := fun p => (Throw what, p).
Definition fault {A} : M A := fun p => (Fault, p).
Definition raise {A} (signo : Z) : M A := fun p => (Signal signo, p).

Declare Scope proc_scope.
Delimit Scope proc_scope with proc.
Notation "x <- m ;; k" := (bind m (fun x => k))
  (at level 61, m at next level, right associativity) : proc_scope.
Notation "m ;; k" := (bind m (fun _ => k))
  (at level 61, right associativity) : proc_scope.
Local Open Scope proc_scope.

Definition log (e : event) : M unit :=
  fun p =>
    (Val tt,
     {| syscalls := syscalls p ++ [e]; out_stream := out_stream p;
        err_stream := err_stream p; arena := arena p; stored := stored p;
        examined := examined p |}).

Definition write_stdout (t : chars) : M unit :=
  fun p =>
    (Val tt,
     {| syscalls := syscalls p; out_stream := out_stream p ++ t;
        err_stream := err_stream p; arena := arena p; stored := stored p;
        examined := examined p |}).

Definition write_stderr (t : chars) : M unit :=
  fun p =>
    (Val tt,
     {| syscalls := syscalls p; out_stream := out_stream p;
        err_stream := err_stream p ++ t; arena := arena p;
        stored := stored p; examined := examined p |}).

Definition note_arena (buf : chars) : M unit :=
  fun p =>
    (Val tt,
     {| syscalls := syscalls p; out_stream := out_stream p;
        err_stream := err_stream p; arena := buf; stored := stored p;
        examined := examined p |}).

Definition note_stored (n : nat) : M unit :=
  fun p =>
    (Val tt,
     {| syscalls := syscalls p; out_stream := out_stream p;
        err_stream := err_stream p; arena := arena p;
        stored := stored p + n; examined := examined p |}).

Definition note_examined (n : nat) : M unit :=
  fun p =>
    (Val tt,
     {| syscalls := syscalls p; out_stream := out_stream p;
        err_stream := err_stream p; arena := arena p; stored := stored p;
        examined := examined p + n |}).

(** ** System calls as actions of the process *)

Definition socket (w : os) (domain type protocol : Z) : M Z :=
  log (EvSocket domain type protocol) ;;
  ret (os_socket w domain type protocol).

Definition connect (w : os) (fd : Z) (addr : sockaddr_vm) (len : Z) : M Z :=
  log (EvConnect fd addr len) ;;
  ret (os_connect w fd addr len).

(** [send (fd, data, len, flags)] hands the first [len] bytes at [data] to
    the kernel; the call returns, or the process dies of SIGPIPE in it. *)
Definition send (w : os) (fd : Z) (data : chars) (len flags : Z) : M Z :=
  let bytes := firstn (Z.to_nat len) data in
  log (EvSend fd bytes len flags) ;;
  match os_send w fd bytes len flags with
  | Sent n => ret n
  | Sigpipe => raise SIGPIPE
  end.

(** [recv (fd, buf, len, flags)]: on an error the call returns -1 and
    leaves the array alone; otherwise the kernel stores at most [len] of
    the ready bytes from the start of the array and returns their number.
    The kernel knows [len], not the size of the array: a store that does
    not fit the array goes past its end. *)
Definition recv (w : os) (fd : Z) (buf : chars) (len flags : Z)
  : M (Z * chars) :=
  log (EvRecv fd len flags) ;;
  note_arena buf ;;
  match os_recv w fd len flags with
  | Failed => ret (-1, buf)
  | Delivered d =>
      let got := firstn (Z.to_nat len) d in
      if (length got <=? length buf)%nat then
        note_stored (length got) ;;
        ret (Z.of_nat (length got), got ++ skipn (length got) buf)
      else fault
  end.

(** ** [m3_string_format] *)

(** The result of [snprintf]: the length of the complete text, or a
    negative value when that length does not fit an [int]. *)
Definition snprintf_result (text : chars) : Z :=
  let n := Z.of_nat (length text) in
  if n <=? CInt.INT_MAX then n else -1.

(** [snprintf (buf, size, ...)] stores at most [size - 1] characters of the
    text, then the terminator. *)
Definition snprintf_store (size : Z) (text : chars) : chars :=
  firstn (Z.to_nat (size - 1)) text ++ [NUL].

(** The text of the format ["%s "] at one [char *] argument. *)
Definition format_s_sp (arg : chars) : option chars :=
  match conv_s None arg with
  | Some (t, _) => Some (t ++ [SP])
  | None => None
  end.

(** The template is instantiated once, at the format ["%s "] and one
    [char *] argument; [arg] is the array the argument points to.  The
    addition [snprintf (...) + 1] is done in [int], with wrap-around. *)
Definition m3_string_format (arg : chars) : M chars :=
  match format_s_sp arg with
  | None => fault
  | Some text =>
      let size_s := CInt.to_int (snprintf_result text + 1) in
      if size_s <=? 0 then throw "Error during formatting."
      else
        let size := CInt.to_size_t size_s in
        let buf := snprintf_store size text in
        ret (firstn (Z.to_nat (size - 1)) buf)
  end.

(** ** [main] *)

(** [sizeof(buffer) * sizeof(char)] for [char buffer[4096]]. *)
Definition sizeof_buffer : Z := 4096 * 1.

(** [struct sockaddr_vm addr] after the [memset] and the three
    assignments. *)
Definition addr : sockaddr_vm :=
  {| svm_family := AF_VSOCK;
     svm_reserved1 := svm_reserved1 zeroed_sockaddr_vm;
     svm_port := 9999;
     svm_cid := VMADDR_CID_HOST;
     svm_zero := svm_zero zeroed_sockaddr_vm |}.

(** [fprintf (stderr, "syntax: %s key(s)\n", argv[0])].  With an empty
    argument vector [argv[0]] is the null pointer, which glibc prints as
    [(null)]. *)
Definition usage (argv : list chars) : M unit :=
  match argv with
  | [] => write_stderr (lit "syntax: " ++ lit "(null)" ++ lit " key(s)" ++ [LF])
  | prog :: _ =>
      match conv_s None (c_array prog) with
      | Some (t, _) => write_stderr (lit "syntax: " ++ t ++ lit " key(s)" ++ [LF])
      | None => fault
      end
  end.

(** The loop [for (int i = 1; i < argc; i++) out += m3_string_format ("%s ", argv[i])],
    over the arguments still to come. *)
Fixpoint append_args (out : chars) (rest : list chars) : M chars :=
  match rest with
  | [] => ret out
  | a :: rest' =>
      piece <- m3_string_format (c_array a) ;;
      append_args (out ++ piece) rest'
  end.

(** [printf ("Value: %.*s", (int) msg_len, buf)] *)
Definition print_value (msg_len : Z) (buf : chars) : M unit :=
  match conv_s (precision (CInt.to_int msg_len)) buf with
  | Some (t, n) => note_examined n ;; write_stdout (lit "Value: " ++ t)
  | None => fault
  end.

Definition main (w : os) (argv : list chars) : M Z :=
  let argc := Z.of_nat (length argv) in
  if argc <? 2 then
    usage argv ;;
    ret 1
  else
    s <- socket w AF_VSOCK SOCK_STREAM 0 ;;
    _ <- connect w s addr sizeof_sockaddr_vm ;;
    out <- append_args [] (skipn 1 argv) ;;
    let out := out ++ [LF] in
    _ <- send w s out (Z.of_nat (length out)) 0 ;;
    let buf := repeat NUL 4096 in
    r <- recv w s buf 4096 0 ;;
    let '(n, buf) := r in
    let msg_len := CInt.to_size_t n in
    if msg_len <? sizeof_buffer then
      print_value msg_len buf ;;
      ret EXIT_SUCCESS
    else
      ret EXIT_FAILURE.

(** ** A run of the program *)

Inductive ending :=
| Exit (status : Z)           (* [main] returned *)
| Abort                       (* uncaught exception: [std::terminate] *)
| Killed (signo : Z)          (* a fatal signal *)
| Undefined.                  (* undefined behaviour *)

Record outcome := {
  how : ending;
  final : process
}.

(** What the terminate handler of libstdc++ writes to the error stream
    for an uncaught [std::runtime_error] before it aborts. *)
Definition terminate_message (what : string) : chars :=
  lit "terminate called after throwing an instance of 'std::runtime_error'" ++
  [LF] ++ lit "  what():  " ++ lit what ++ [LF].

(** The input of a run is the argument vector and the environment; the
    source declares [main (int argc, char *argv[])] and never reads the
    environment. *)
Definition run_on (argv environ : list chars) (w : os) : outcome :=
  match main w argv fresh_process with
  | (Val status, p) => {| how := Exit (Z.land status 255); final := p |}
  | (Throw what, p) =>
      match write_stderr (terminate_message what) p with
      | (_, p') => {| how := Abort; final := p' |}
      end
  | (Fault, p) => {| how := Undefined; final := p |}
  | (Signal n, p) => {| how := Killed n; final := p |}
  end.

(** A run on a kernel whose calls all return. *)
Definition run (argv environ : list chars) (k : kernel) : outcome :=
  run_on argv environ (returning k).

Definition stdout (o : outcome) : chars := out_stream (final o).
Definition stderr (o : outcome) : chars := err_stream (final o).
Definition calls (o : outcome) : list event := syscalls (final o).

(** The Request: the string handed to [send], when the loop completes. *)
Definition request (argv : list chars) : result chars :=
  match append_args [] (skipn 1 argv) fresh_process with
  | (Val out, _) => Val (out ++ [LF])
  | (Throw w, _) => Throw w
  | (Fault, _) => Fault
  | (Signal n, _) => Signal n
  end.

(** ** The words of the specification *)

(** [join (T, sep)]: the elements of [T] with [sep] between neighbours. *)
Fixpoint join (sep : chars) (T : list chars) : chars :=
  match T with
  | [] => []
  | [t] => t
  | t :: rest => t ++ sep ++ join sep rest
  end.

(** A token the formatting step accepts: its text with the added space
    and the terminator is counted in an [int]. *)
Definition fits (t : chars) : Prop :=
  Z.of_nat (length (until_nul t)) + 2 <= CInt.INT_MAX.

Definition args_fit (argv : list chars) : Prop := Forall fits (skipn 1 argv).

(** A kernel that answers every call with fixed values. *)
Definition fixed_kernel (fd conn sent : Z) (r : reply) : kernel :=
  {| k_socket := fun _ _ _ => fd;
     k_connect := fun _ _ _ => conn;
     k_send := fun _ _ _ _ => sent;
     k_recv := fun _ _ _ => r |}.

(** ** Notions used to state the properties *)

(** How many elements of [d] a [%s] conversion examines when its precision
    is the length of [d]. *)
Fixpoint probed (d : chars) : nat :=
  match d with
  | [] => O
  | c :: rest => if Ascii.eqb c NUL then 1%nat else S (probed rest)
  end.

(** The text the loop builds: every argument followed by one space. *)
Definition spaced (rest : list chars) : chars :=
  concat (map (fun t => until_nul t ++ [SP]) rest).

(** The value of the loop, as a function of its input alone. *)
Definition built (out : chars) (rest : list chars) : result chars :=
  fst (append_args out rest fresh_process).

(** The descriptor the kernel hands out. *)
Definition sock (k : kernel) : Z := k_socket k AF_VSOCK SOCK_STREAM 0.

(** The two system calls before the request is built. *)
Definition opening (k : kernel) : list event :=
  [EvSocket AF_VSOCK SOCK_STREAM 0; EvConnect (sock k) addr sizeof_sockaddr_vm].

(** The four system calls of an exchange that transmits [out]. *)
Definition exchange (k : kernel) (out : chars) : list event :=
  opening k ++
  [EvSend (sock k) out (Z.of_nat (length out)) 0; EvRecv (sock k) 4096 0].

(** What the single [recv] call finds. *)
Definition received (k : kernel) : reply := k_recv k (sock k) 4096 0.

(** The part of the reply that [recv] stores: at most 4096 bytes. *)
Definition taken (d : chars) : chars := firstn (Z.to_nat 4096) d.

(** The array [main] hands to [recv]. *)
Definition buf_handed : chars := repeat NUL 4096.

Definition settled (calls : list event) (out err ar : chars) (st ex : nat)
  : process :=
  {| syscalls := calls; out_stream := out; err_stream := err; arena := ar;
     stored := st; examined := ex |}.

(** The descriptor of a run, its first two system calls and its [send]. *)
Definition fd_of (w : os) : Z := os_socket w AF_VSOCK SOCK_STREAM 0.

Definition opening_on (w : os) : list event :=
  [EvSocket AF_VSOCK SOCK_STREAM 0; EvConnect (fd_of w) addr sizeof_sockaddr_vm].

Definition sending (w : os) (out : chars) : event :=
  EvSend (fd_of w) out (Z.of_nat (length out)) 0.

(** What the [send] of [out] meets, and what the [recv] finds. *)
Definition send_meets (w : os) (out : chars) : send_answer :=
  os_send w (fd_of w) out (Z.of_nat (length out)) 0.

Definition found (w : os) : reply := os_recv w (fd_of w) 4096 0.

(** The line a well-formed argument vector is turned into. *)
Definition line (argv : list chars) : chars := spaced (skipn 1 argv) ++ [LF].

(** ** Sample inputs *)

Definition prog_name : chars := lit "qemu-vsock-send".

Definition status_argv : list chars := [prog_name; lit "STATUS"].

(** A peer that accepts and answers with the three bytes [A], NUL, [B]. *)
Definition nul_reply : chars := ["A"%char; NUL; "B"%char].
Definition nul_peer : kernel := fixed_kernel 3 0 8 (Delivered nul_reply).

(** A peer that accepts and answers [ok]. *)
Definition ok_peer : kernel := fixed_kernel 3 0 8 (Delivered (lit "ok")).

(** Nobody listens: [connect] fails, and so do [send] and [recv] on the
    unconnected socket. *)
Definition no_listener : kernel := fixed_kernel 3 (-1) (-1) Failed.

(** A peer whose answer fills the buffer. *)
Definition flooding_peer : kernel :=
  fixed_kernel 3 0 8 (Delivered (repeat "x"%char 5000)).

(** A peer that accepts but whose answer cannot be received. *)
Definition broken_peer : kernel := fixed_kernel 3 0 8 Failed.

(** The test of [fits], computed. *)
Definition fitsb (t : chars) : bool :=
  Z.of_nat (length (until_nul t)) + 2 <=? CInt.INT_MAX.

(** A token the far side can tell apart: no space inside (and, as every C
    string, no NUL). *)
Definition space_free (t : chars) : Prop := Forall (fun c => c <> SP) t.

Definition plain_token (t : chars) : Prop := nul_free t /\ space_free t.

(** A peer that accepts and closes the stream without a reply. *)
Definition silent_peer : kernel := fixed_kernel 3 0 8 (Delivered []).

(** A kernel on which [socket], [connect] and [send] all fail, while the
    answer to [recv] is that of [ok_peer]. *)
Definition deaf_kernel : kernel := fixed_kernel (-1) (-1) (-1) (Delivered (lit "ok")).

(** A peer that accepts and then shuts the connection down: [send] raises
    SIGPIPE. *)
Definition gone_peer : os :=
  {| os_socket := fun _ _ _ => 3;
     os_connect := fun _ _ _ => 0;
     os_send := fun _ _ _ _ => Sigpipe;
     os_recv := fun _ _ _ => Delivered (lit "ok") |}.

(** An argument vector whose one token has [INT_MAX - 1] characters. *)
Definition overlong_argv : list chars :=
  [prog_name; repeat "x"%char (Z.to_nat 2147483646)].

(** * Properties *)

(** A sample run, computed. *)
Example run_status :
  let o := run [lit "qemu-vsock-send"; lit "STATUS"] []
               (fixed_kernel 3 0 8 (Delivered (lit "ok"))) in
  how o = Exit 0 /\ stdout o = lit "Value: ok" /\ stderr o = [] /\
  calls o = [EvSocket 40 1 0; EvConnect 3 addr 16;
             EvSend 3 (lit "STATUS " ++ [LF]) 8 0; EvRecv 3 4096 0].
Proof. vm_compute. repeat split. Qed.


(** ** Machine integers *)

Lemma to_int_small z : - 2 ^ 31 <= z < 2 ^ 31 -> CInt.to_int z = z.
Proof.
  intros Hz. unfold CInt.to_int.
  rewrite Z.mod_small by lia. lia.
Qed.

Lemma to_size_t_small z : 0 <= z < 2 ^ 64 -> CInt.to_size_t z = z.
Proof. intros Hz. unfold CInt.to_size_t. now rewrite Z.mod_small. Qed.

Lemma to_size_t_negative z :
  - 2 ^ 63 <= z < 0 -> CInt.to_size_t z = z + 2 ^ 64.
Proof.
  intros Hz. unfold CInt.to_size_t.
  symmetry. apply (Z.mod_unique_pos z (2 ^ 64) (-1) (z + 2 ^ 64)); lia.
Qed.

(** ** C strings and the [%s] conversion *)

Lemma nul_freeb_spec t : nul_freeb t = true <-> nul_free t.
Proof.
  unfold nul_freeb, nul_free. rewrite forallb_forall, Forall_forall.
  split; intros H c Hc; specialize (H c Hc).
  - intros ->. discriminate H.
  - destruct (Ascii.eqb_spec c NUL); [contradiction | reflexivity].
Qed.

Lemma until_nul_free t : nul_free t -> until_nul t = t.
Proof.
  induction 1 as [|c t Hc _ IH]; simpl; [reflexivity|].
  destruct (Ascii.eqb_spec c NUL); [contradiction | now rewrite IH].
Qed.

Lemma until_nul_length t : (length (until_nul t) <= length t)%nat.
Proof.
  induction t as [|c t IH]; simpl; [lia|].
  destruct (Ascii.eqb c NUL); simpl; lia.
Qed.

Lemma probed_length d : (probed d <= length d)%nat.
Proof.
  induction d as [|c d IH]; simpl; [lia|].
  destruct (Ascii.eqb c NUL); lia.
Qed.

Lemma conv_s_c_array t :
  conv_s None (c_array t) = Some (until_nul t, S (length (until_nul t))).
Proof.
  unfold c_array. induction t as [|c t IH]; simpl; [reflexivity|].
  destruct (Ascii.eqb c NUL); [reflexivity|].
  simpl in IH. now rewrite IH.
Qed.

(** With the length of [d] as precision the conversion stays inside [d],
    whatever follows it in the array. *)
Lemma conv_s_bounded d tail :
  conv_s (Some (length d)) (d ++ tail) = Some (until_nul d, probed d).
Proof.
  induction d as [|c d IH]; simpl; [now destruct tail|].
  destruct (Ascii.eqb c NUL); [reflexivity|].
  now rewrite IH.
Qed.

(** ** The formatting step *)

Lemma m3_string_format_fits t p :
  fits t -> m3_string_format (c_array t) p = (Val (until_nul t ++ [SP]), p).
Proof.
  unfold fits, m3_string_format, format_s_sp. intros Hfit.
  rewrite conv_s_c_array.
  set (text := until_nul t ++ [SP]).
  assert (Hlen : Z.of_nat (length text) = Z.of_nat (length (until_nul t)) + 1).
  { unfold text. rewrite length_app. simpl. lia. }
  unfold snprintf_result, CInt.INT_MAX in *. cbv zeta.
  destruct (Z.leb_spec (Z.of_nat (length text)) 2147483647) as [_|Hbig]; [|lia].
  rewrite to_int_small by lia.
  destruct (Z.leb_spec (Z.of_nat (length text) + 1) 0) as [Hneg|_]; [lia|].
  rewrite to_size_t_small by lia.
  unfold snprintf_store, ret.
  replace (Z.to_nat (Z.of_nat (length text) + 1 - 1)) with (length text) by lia.
  rewrite firstn_all. rewrite firstn_app, firstn_all, Nat.sub_diag.
  simpl. now rewrite app_nil_r.
Qed.

(** Outside that range the formatting step raises its exception. *)
Lemma m3_string_format_throws t p :
  ~ fits t ->
  m3_string_format (c_array t) p = (Throw "Error during formatting.", p).
Proof.
  unfold fits, m3_string_format, format_s_sp. intros Hbig.
  rewrite conv_s_c_array.
  set (text := until_nul t ++ [SP]).
  assert (Hlen : Z.of_nat (length text) = Z.of_nat (length (until_nul t)) + 1).
  { unfold text. rewrite length_app. simpl. lia. }
  unfold snprintf_result, CInt.INT_MAX in *. cbv zeta.
  destruct (Z.leb_spec (Z.of_nat (length text)) 2147483647) as [Hle|_].
  - assert (Heq : Z.of_nat (length text) + 1 = 2 ^ 31) by lia.
    rewrite Heq. reflexivity.
  - reflexivity.
Qed.

Lemma append_args_fit rest : forall out p,
  Forall fits rest -> append_args out rest p = (Val (out ++ spaced rest), p).
Proof.
  induction rest as [|a rest IH]; intros out p Hfit; simpl.
  - unfold ret, spaced. simpl. now rewrite app_nil_r.
  - inversion Hfit as [|? ? Ha Hrest]; subst.
    unfold bind. rewrite (m3_string_format_fits a p Ha).
    rewrite (IH _ _ Hrest). unfold spaced. simpl.
    now rewrite <- !app_assoc.
Qed.

(** The formatting step and the loop leave the process state alone. *)
Lemma m3_string_format_state arr p :
  m3_string_format arr p = (fst (m3_string_format arr fresh_process), p).
Proof.
  unfold m3_string_format. destruct (format_s_sp arr) as [text|]; [|reflexivity].
  cbv zeta. destruct (_ <=? 0); reflexivity.
Qed.

Lemma append_args_state rest : forall out p,
  append_args out rest p = (built out rest, p).
Proof.
  unfold built. induction rest as [|a rest IH]; intros out p; simpl.
  - reflexivity.
  - unfold bind. rewrite (m3_string_format_state (c_array a) p).
    rewrite (m3_string_format_state (c_array a) fresh_process).
    destruct (fst (m3_string_format (c_array a) fresh_process)); simpl.
    + rewrite (IH _ p). now rewrite (IH _ fresh_process).
    + reflexivity.
    + reflexivity.
    + reflexivity.
Qed.

Lemma built_fit out rest : Forall fits rest -> built out rest = Val (out ++ spaced rest).
Proof. intros Hfit. unfold built. now rewrite append_args_fit. Qed.

Lemma m3_string_format_no_fault t p : fst (m3_string_format (c_array t) p) <> Fault.
Proof.
  unfold m3_string_format, format_s_sp. rewrite conv_s_c_array. cbv zeta.
  destruct (_ <=? 0); discriminate.
Qed.

Lemma built_no_fault rest : forall out, built out rest <> Fault.
Proof.
  unfold built. induction rest as [|a rest IH]; intros out; simpl.
  - discriminate.
  - unfold bind.
    pose proof (m3_string_format_no_fault a fresh_process) as Hnf.
    rewrite (m3_string_format_state (c_array a) fresh_process) in *.
    destruct (fst (m3_string_format (c_array a) fresh_process)); simpl in *.
    + apply IH.
    + discriminate.
    + contradiction.
    + discriminate.
Qed.

(** ** The shape of every run that gets past the argument check *)

Lemma taken_length d : (length (taken d) <= 4096)%nat.
Proof.
  unfold taken. replace (Z.to_nat 4096) with 4096%nat by lia.
  rewrite length_firstn. lia.
Qed.

Lemma taken_short d : (length d < 4096)%nat -> taken d = d.
Proof.
  intros Hd. unfold taken. apply firstn_all2.
  replace (Z.to_nat 4096) with 4096%nat by lia. lia.
Qed.

Lemma taken_full d : (4096 <= length d)%nat -> length (taken d) = 4096%nat.
Proof.
  intros Hd. unfold taken. replace (Z.to_nat 4096) with 4096%nat by lia.
  rewrite length_firstn. lia.
Qed.

(** Every run that gets past the argument check, on any operating
    system. *)
Lemma main_shape_on w argv :
  2 <= Z.of_nat (length argv) ->
  main w argv fresh_process =
  match built [] (skipn 1 argv) with
  | Throw e => (Throw e, settled (opening_on w) [] [] [] 0 0)
  | Fault => (Fault, settled (opening_on w) [] [] [] 0 0)
  | Signal n => (Signal n, settled (opening_on w) [] [] [] 0 0)
  | Val text =>
      let out := text ++ [LF] in
      match send_meets w out with
      | Sigpipe =>
          (Signal SIGPIPE,
           settled (opening_on w ++ [sending w out]) [] [] [] 0 0)
      | Sent _ =>
          let all :=
            opening_on w ++ [sending w out; EvRecv (fd_of w) 4096 0] in
          match found w with
          | Failed => (Val EXIT_FAILURE, settled all [] [] buf_handed 0 0)
          | Delivered d =>
              let got := taken d in
              if Z.of_nat (length got) <? 4096 then
                (Val EXIT_SUCCESS,
                 settled all (lit "Value: " ++ until_nul got) [] buf_handed
                         (length got) (probed got))
              else
                (Val EXIT_FAILURE,
                 settled all [] [] buf_handed (length got) 0)
          end
      end
  end.
Proof.
  intros Hargc.
  unfold main, found, send_meets, sending, opening_on, settled, fd_of,
    buf_handed.
  destruct (Z.ltb_spec (Z.of_nat (length argv)) 2) as [Hlt|_]; [lia|].
  set (buf0 := repeat NUL 4096).
  assert (Hbuf : length buf0 = 4096%nat) by apply repeat_length.
  set (s := os_socket w AF_VSOCK SOCK_STREAM 0).
  unfold bind at 1. unfold socket, bind at 1, log, ret.
  cbn [syscalls out_stream err_stream arena stored examined fresh_process app].
  fold s.
  unfold bind at 1. unfold connect, bind at 1, log, ret.
  cbn [syscalls out_stream err_stream arena stored examined app].
  unfold bind at 1. rewrite append_args_state.
  destruct (built [] (skipn 1 argv)) as [text|e| |n];
    [|reflexivity|reflexivity|reflexivity].
  cbv zeta. set (out := text ++ [LF]).
  unfold bind at 1. unfold send, bind at 1, log, ret.
  cbn [syscalls out_stream err_stream arena stored examined app].
  rewrite Nat2Z.id, firstn_all.
  destruct (os_send w s out (Z.of_nat (length out)) 0) as [sent|];
    [|reflexivity].
  unfold bind at 1. unfold recv, bind at 1, log.
  cbn [syscalls out_stream err_stream arena stored examined app].
  unfold bind at 1, note_arena.
  cbn [syscalls out_stream err_stream arena stored examined app].
  destruct (os_recv w s 4096 0) as [|d].
  - unfold ret. rewrite to_size_t_negative by lia. reflexivity.
  - cbv zeta. fold (taken d). set (got := taken d).
    pose proof (taken_length d) as Hcap. fold got in Hcap.
    rewrite Hbuf.
    destruct (Nat.leb_spec (length got) 4096) as [_|Hover]; [|lia].
    unfold bind at 1, note_stored, ret.
    cbn [syscalls out_stream err_stream arena stored examined app].
    rewrite to_size_t_small by lia.
    unfold sizeof_buffer. change (4096 * 1) with 4096.
    destruct (Z.ltb_spec (Z.of_nat (length got)) 4096) as [Hshort|Hfull].
    + unfold print_value. rewrite to_int_small by lia.
      unfold precision.
      destruct (Z.ltb_spec (Z.of_nat (length got)) 0) as [Hneg|_]; [lia|].
      rewrite Nat2Z.id, conv_s_bounded.
      unfold bind, note_examined, write_stdout, ret.
      cbn [syscalls out_stream err_stream arena stored examined app].
      reflexivity.
    + reflexivity.
Qed.

(** The same on a kernel whose calls return. *)
Lemma main_shape k argv :
  2 <= Z.of_nat (length argv) ->
  main (returning k) argv fresh_process =
  match built [] (skipn 1 argv) with
  | Throw e => (Throw e, settled (opening k) [] [] [] 0 0)
  | Fault => (Fault, settled (opening k) [] [] [] 0 0)
  | Signal n => (Signal n, settled (opening k) [] [] [] 0 0)
  | Val text =>
      let out := text ++ [LF] in
      match received k with
      | Failed => (Val EXIT_FAILURE, settled (exchange k out) [] [] buf_handed 0 0)
      | Delivered d =>
          let got := taken d in
          if Z.of_nat (length got) <? 4096 then
            (Val EXIT_SUCCESS,
             settled (exchange k out) (lit "Value: " ++ until_nul got) []
                     buf_handed (length got) (probed got))
          else
            (Val EXIT_FAILURE,
             settled (exchange k out) [] [] buf_handed (length got) 0)
      end
  end.
Proof.
  intros Hargc. rewrite (main_shape_on (returning k) argv Hargc).
  destruct (built [] (skipn 1 argv)); reflexivity.
Qed.

(** Below two arguments nothing but the usage line happens. *)
Lemma main_usage w argv :
  Z.of_nat (length argv) < 2 ->
  main w argv fresh_process =
  (Val 1,
   settled [] []
     (lit "syntax: " ++
      match argv with [] => lit "(null)" | prog :: _ => until_nul prog end ++
      lit " key(s)" ++ [LF])
     [] 0 0).
Proof.
  intros Hargc. unfold main.
  destruct (Z.ltb_spec (Z.of_nat (length argv)) 2) as [_|Hge]; [|lia].
  unfold usage. destruct argv as [|prog rest].
  - reflexivity.
  - rewrite conv_s_c_array. reflexivity.
Qed.

(** ** Runs *)

Lemma request_fit argv : args_fit argv -> request argv = Val (line argv).
Proof.
  intros Hfit. unfold request. rewrite append_args_state.
  now rewrite (built_fit [] _ Hfit).
Qed.

Lemma run_fit argv environ k :
  2 <= Z.of_nat (length argv) -> args_fit argv ->
  run argv environ k =
  match received k with
  | Failed =>
      {| how := Exit 1;
         final := settled (exchange k (line argv)) [] [] buf_handed 0 0 |}
  | Delivered d =>
      if Z.of_nat (length (taken d)) <? 4096 then
        {| how := Exit 0;
           final := settled (exchange k (line argv))
                            (lit "Value: " ++ until_nul (taken d)) []
                            buf_handed
                            (length (taken d)) (probed (taken d)) |}
      else
        {| how := Exit 1;
           final := settled (exchange k (line argv)) [] [] buf_handed
                            (length (taken d)) 0 |}
  end.
Proof.
  intros Hargc Hfit. unfold run, run_on. rewrite (main_shape k argv Hargc).
  rewrite (built_fit [] _ Hfit). cbv zeta. fold (line argv).
  destruct (received k) as [|d]; [reflexivity|].
  destruct (_ <? 4096); reflexivity.
Qed.

Lemma run_usage_on argv environ w :
  Z.of_nat (length argv) < 2 ->
  how (run_on argv environ w) = Exit 1 /\
  calls (run_on argv environ w) = [] /\
  stdout (run_on argv environ w) = [] /\
  arena (final (run_on argv environ w)) = [] /\
  stored (final (run_on argv environ w)) = 0%nat /\
  examined (final (run_on argv environ w)) = 0%nat.
Proof.
  intros Hargc. unfold run_on, calls, stdout.
  rewrite (main_usage w argv Hargc). repeat split.
Qed.

Lemma run_usage argv environ k :
  Z.of_nat (length argv) < 2 ->
  how (run argv environ k) = Exit 1 /\
  calls (run argv environ k) = [] /\
  stdout (run argv environ k) = [] /\
  stored (final (run argv environ k)) = 0%nat /\
  examined (final (run argv environ k)) = 0%nat.
Proof.
  intros Hargc. unfold run.
  destruct (run_usage_on argv environ (returning k) Hargc)
    as (H1 & H2 & H3 & _ & H5 & H6).
  repeat split; assumption.
Qed.

(** ** The request and [join] *)

Lemma spaced_join T :
  T <> [] -> Forall nul_free T -> spaced T = join [SP] T ++ [SP].
Proof.
  unfold spaced. induction T as [|t T IH]; intros Hne Hfree; [contradiction|].
  inversion Hfree as [|? ? Ht HT]; subst.
  destruct T as [|t' T].
  - simpl. rewrite (until_nul_free t Ht). now rewrite app_nil_r.
  - change (concat (map (fun t0 => until_nul t0 ++ [SP]) (t :: t' :: T)))
      with ((until_nul t ++ [SP]) ++
            concat (map (fun t0 => until_nul t0 ++ [SP]) (t' :: T))).
    rewrite IH by (try discriminate; assumption).
    rewrite (until_nul_free t Ht).
    change (join [SP] (t :: t' :: T)) with (t ++ [SP] ++ join [SP] (t' :: T)).
    now rewrite <- !app_assoc.
Qed.

(** The bound of [args_fit] is the one the code has: an argument beyond it
    makes the formatting step throw, after [connect] and before [send],
    and the uncaught exception ends the process. *)
Lemma built_overlong a rest out :
  ~ fits a -> built out (a :: rest) = Throw "Error during formatting.".
Proof.
  intros Hbig. unfold built. simpl. unfold bind.
  now rewrite (m3_string_format_throws a fresh_process Hbig).
Qed.

Lemma run_overlong prog a rest environ k :
  ~ fits a ->
  how (run (prog :: a :: rest) environ k) = Abort /\
  calls (run (prog :: a :: rest) environ k) = opening k.
Proof.
  intros Hbig. unfold run, run_on, calls.
  rewrite (main_shape k (prog :: a :: rest)) by (simpl length; lia).
  cbn [skipn]. rewrite (built_overlong a rest [] Hbig). split; reflexivity.
Qed.

Lemma fits_dec t : {fits t} + {~ fits t}.
Proof. unfold fits. apply Z_le_dec. Qed.

(** The loop either formats every argument or stops at the first one that
    does not fit. *)
Lemma built_cases rest : forall out,
  (Forall fits rest /\ built out rest = Val (out ++ spaced rest)) \/
  (~ Forall fits rest /\ built out rest = Throw "Error during formatting.").
Proof.
  induction rest as [|a rest IH]; intros out.
  - left. split; [constructor | now apply built_fit].
  - destruct (fits_dec a) as [Ha|Ha].
    + destruct (IH (out ++ until_nul a ++ [SP])) as [[Hall Hval]|[Hnot Hthrow]].
      * left. split; [now constructor | apply built_fit; now constructor].
      * right. split.
        -- intros Hall. inversion Hall; subst. contradiction.
        -- unfold built in *. simpl. unfold bind.
           rewrite (m3_string_format_fits a fresh_process Ha).
           rewrite append_args_state. rewrite append_args_state in Hthrow.
           exact Hthrow.
    + right. split.
      * intros Hall. inversion Hall; subst. contradiction.
      * now apply built_overlong.
Qed.

Ltac fit_sample :=
  repeat constructor; unfold fits; vm_compute; discriminate.

(** * The claims *)

(** ** C1: a reply shorter than the buffer *)

(** C1, amended.  When the peer accepts the connection and the single
    [recv] returns fewer than 4096 bytes, the run is a success: the
    process exits with status 0 and standard output is the label
    [Value: ] followed by the received bytes up to, and without, their
    first zero byte; a reply without a zero byte is printed unchanged. *)
Theorem short_reply_is_success argv environ k d :
  2 <= Z.of_nat (length argv) ->
  args_fit argv ->
  k_connect k (sock k) addr sizeof_sockaddr_vm = 0 ->
  received k = Delivered d ->
  (length d < 4096)%nat ->
  let o := run argv environ k in
  how o = Exit 0 /\
  stdout o = lit "Value: " ++ until_nul d /\
  (nul_free d -> stdout o = lit "Value: " ++ d).
Proof.
  intros Hargc Hfit _ Hrecv Hshort o. subst o.
  rewrite (run_fit argv environ k Hargc Hfit), Hrecv.
  rewrite (taken_short d Hshort).
  destruct (Z.ltb_spec (Z.of_nat (length d)) 4096) as [_|Hge]; [|lia].
  unfold stdout. cbn [how final settled out_stream].
  repeat split. intros Hfree. now rewrite (until_nul_free d Hfree).
Qed.

Lemma short_reply_is_success_witness :
  how (run status_argv [] ok_peer) = Exit 0 /\
  stdout (run status_argv [] ok_peer) = lit "Value: " ++ until_nul (lit "ok") /\
  (nul_free (lit "ok") ->
   stdout (run status_argv [] ok_peer) = lit "Value: " ++ lit "ok").
Proof.
  apply (short_reply_is_success status_argv [] ok_peer (lit "ok")).
  - vm_compute. discriminate.
  - fit_sample.
  - reflexivity.
  - reflexivity.
  - simpl. lia.
Defined.

(** C1 as stated fails on a reply that contains a zero byte: the peer
    accepts, [recv] returns the three bytes [A], NUL, [B], the process
    exits with status 0, and standard output is [Value: A], not the label
    followed by the three bytes. *)
Lemma reply_with_nul_is_cut :
  let o := run status_argv [] nul_peer in
  k_connect nul_peer (sock nul_peer) addr sizeof_sockaddr_vm = 0 /\
  received nul_peer = Delivered nul_reply /\
  (length nul_reply < 4096)%nat /\
  how o = Exit 0 /\
  stdout o = lit "Value: A" /\
  stdout o <> lit "Value: " ++ nul_reply.
Proof.
  vm_compute. repeat split; try discriminate.
  apply Nat.leb_le. reflexivity.
Qed.

(** ** C2: the request line *)

(** C2, amended.  For every non-empty sequence [T] of argument strings the
    request built and handed to [send] is [join (T, " ")] followed by one
    space and one newline. *)
Theorem request_is_join_space_newline prog T :
  T <> [] ->
  Forall nul_free T ->
  Forall fits T ->
  let req := join [SP] T ++ [SP; LF] in
  request (prog :: T) = Val req /\
  forall environ k,
    nth_error (calls (run (prog :: T) environ k)) 2 =
    Some (EvSend (sock k) req (Z.of_nat (length req)) 0).
Proof.
  intros Hne Hfree Hfit req.
  assert (Hline : line (prog :: T) = req).
  { unfold line, req. cbn [skipn]. rewrite (spaced_join T Hne Hfree).
    now rewrite <- app_assoc. }
  split.
  - rewrite request_fit by exact Hfit. now rewrite Hline.
  - intros environ k.
    assert (Hargc : 2 <= Z.of_nat (length (prog :: T))).
    { destruct T; [contradiction | simpl length; lia]. }
    rewrite (run_fit (prog :: T) environ k Hargc Hfit), Hline.
    unfold calls.
    destruct (received k) as [|d]; [reflexivity|].
    destruct (_ <? 4096); reflexivity.
Qed.

Lemma request_is_join_space_newline_witness :
  let req := join [SP] [lit "GET"; lit "key"] ++ [SP; LF] in
  request [prog_name; lit "GET"; lit "key"] = Val req /\
  forall environ k,
    nth_error (calls (run [prog_name; lit "GET"; lit "key"] environ k)) 2 =
    Some (EvSend (sock k) req (Z.of_nat (length req)) 0).
Proof.
  apply (request_is_join_space_newline prog_name [lit "GET"; lit "key"]).
  - discriminate.
  - repeat constructor; vm_compute; discriminate.
  - fit_sample.
Defined.

(** C2 as stated fails already on one token: the request for [STATUS] is
    [STATUS], a space, a newline, while [join (T, " ")] followed by a
    newline has no space. *)
Lemma request_is_not_join_newline :
  request status_argv = Val (lit "STATUS " ++ [LF]) /\
  request status_argv <> Val (join [SP] [lit "STATUS"] ++ [LF]).
Proof. vm_compute. split; [reflexivity | discriminate]. Qed.

(** ** C3: nobody listens *)

(** C3, amended.  When connection establishment fails the program does not
    notice: it still issues the one [send] and the one [recv] on the
    unconnected socket and writes nothing to the error stream; the process
    exits with a non-zero status, and prints nothing, when that [recv]
    fails. *)
Theorem failed_connect_goes_unnoticed argv environ k :
  2 <= Z.of_nat (length argv) ->
  args_fit argv ->
  k_connect k (sock k) addr sizeof_sockaddr_vm <> 0 ->
  let o := run argv environ k in
  calls o = exchange k (line argv) /\
  stderr o = [] /\
  (received k = Failed -> how o = Exit EXIT_FAILURE /\ stdout o = []).
Proof.
  intros Hargc Hfit _ o. subst o.
  rewrite (run_fit argv environ k Hargc Hfit). unfold calls, stderr, stdout.
  destruct (received k) as [|d].
  - repeat split.
  - destruct (_ <? 4096); (split; [reflexivity | split; [reflexivity | discriminate]]).
Qed.

Lemma failed_connect_goes_unnoticed_witness :
  let o := run status_argv [] no_listener in
  calls o = exchange no_listener (line status_argv) /\
  stderr o = [] /\
  (received no_listener = Failed -> how o = Exit EXIT_FAILURE /\ stdout o = []).
Proof.
  apply (failed_connect_goes_unnoticed status_argv [] no_listener).
  - vm_compute. discriminate.
  - fit_sample.
  - vm_compute. discriminate.
Defined.

(** C3 as stated fails: with nobody listening ([connect] returns -1) the
    process still calls [send] and [recv]. *)
Lemma failed_connect_still_sends_and_receives :
  let o := run status_argv [] no_listener in
  k_connect no_listener (sock no_listener) addr sizeof_sockaddr_vm = -1 /\
  In (EvSend 3 (lit "STATUS " ++ [LF]) 8 0) (calls o) /\
  In (EvRecv 3 4096 0) (calls o).
Proof.
  vm_compute. split; [reflexivity|].
  split; [do 2 right; left; reflexivity | do 3 right; left; reflexivity].
Qed.

(** ** C4: a reply that fills the buffer *)

(** C4.  When the reply is 4096 bytes or longer, so that the [recv] call
    fills the buffer, the run is a failure although a reply arrived:
    nothing is written to standard output and the process exits with
    [EXIT_FAILURE]. *)
Theorem full_buffer_is_failure argv environ k d :
  2 <= Z.of_nat (length argv) ->
  args_fit argv ->
  received k = Delivered d ->
  (4096 <= length d)%nat ->
  let o := run argv environ k in
  stored (final o) = 4096%nat /\
  how o = Exit EXIT_FAILURE /\
  stdout o = [] /\
  stderr o = [].
Proof.
  intros Hargc Hfit Hrecv Hfull o. subst o.
  rewrite (run_fit argv environ k Hargc Hfit), Hrecv.
  rewrite (taken_full d Hfull).
  destruct (Z.ltb_spec (Z.of_nat 4096) 4096) as [Hlt|_]; [lia|].
  repeat split.
Qed.

Lemma full_buffer_is_failure_witness :
  let o := run status_argv [] flooding_peer in
  stored (final o) = 4096%nat /\
  how o = Exit EXIT_FAILURE /\
  stdout o = [] /\
  stderr o = [].
Proof.
  apply (full_buffer_is_failure status_argv [] flooding_peer
                                (repeat "x"%char 5000)).
  - vm_compute. discriminate.
  - fit_sample.
  - reflexivity.
  - rewrite repeat_length. apply Nat.leb_le. vm_compute. reflexivity.
Defined.

(** ** C5: no argument *)

(** C5.  Started with the program name alone, the process writes the usage
    line to the error stream and exits with status 1; it issues no system
    call of the exchange, so no socket is opened, and prints nothing on
    standard output. *)
Theorem no_argument_is_usage_error prog environ k :
  let o := run [prog] environ k in
  stderr o = lit "syntax: " ++ until_nul prog ++ lit " key(s)" ++ [LF] /\
  how o = Exit 1 /\
  calls o = [] /\
  stdout o = [].
Proof.
  intros o. subst o. unfold run, run_on, stderr, calls, stdout.
  rewrite (main_usage (returning k) [prog]) by (simpl; lia).
  repeat split.
Qed.

(** ** C6: a failing receive *)

(** C6.  A negative [ssize_t] converted to [size_t] is at least the buffer
    size; so when [recv] reports an error, by returning -1, the stored
    count is 2^64 - 1, the comparison with the buffer size fails, and the
    run ends on the failure branch: status [EXIT_FAILURE], nothing
    printed, and no diagnostic of its own. *)
Theorem receive_error_takes_failure_branch argv environ k :
  2 <= Z.of_nat (length argv) ->
  args_fit argv ->
  received k = Failed ->
  let o := run argv environ k in
  (forall r, - 2 ^ 63 <= r < 0 -> sizeof_buffer <= CInt.to_size_t r) /\
  CInt.to_size_t (-1) = 2 ^ 64 - 1 /\
  (CInt.to_size_t (-1) <? sizeof_buffer) = false /\
  how o = Exit EXIT_FAILURE /\
  stdout o = [] /\
  stderr o = [].
Proof.
  intros Hargc Hfit Hrecv o. subst o.
  rewrite (run_fit argv environ k Hargc Hfit), Hrecv.
  split.
  { intros r Hr. rewrite (to_size_t_negative r Hr).
    unfold sizeof_buffer. lia. }
  repeat split.
Qed.

Lemma receive_error_takes_failure_branch_witness :
  let o := run status_argv [] broken_peer in
  (forall r, - 2 ^ 63 <= r < 0 -> sizeof_buffer <= CInt.to_size_t r) /\
  CInt.to_size_t (-1) = 2 ^ 64 - 1 /\
  (CInt.to_size_t (-1) <? sizeof_buffer) = false /\
  how o = Exit EXIT_FAILURE /\
  stdout o = [] /\
  stderr o = [].
Proof.
  apply (receive_error_takes_failure_branch status_argv [] broken_peer).
  - vm_compute. discriminate.
  - fit_sample.
  - reflexivity.
Defined.

(** ** C7: the request for [STATUS] *)

(** C7, amended.  For the single token [STATUS] the request is exactly the
    eight-character string made of [STATUS], one space and one newline:
    the space follows every token, the last one included. *)
Theorem status_request prog :
  request [prog; lit "STATUS"] = Val (lit "STATUS" ++ [SP; LF]) /\
  length (lit "STATUS" ++ [SP; LF]) = 8%nat /\
  forall environ k,
    nth_error (calls (run [prog; lit "STATUS"] environ k)) 2 =
    Some (EvSend (sock k) (lit "STATUS" ++ [SP; LF]) 8 0).
Proof.
  assert (Hfit : args_fit [prog; lit "STATUS"]) by fit_sample.
  assert (Hline : line [prog; lit "STATUS"] = lit "STATUS" ++ [SP; LF])
    by reflexivity.
  split; [|split].
  - rewrite (request_fit _ Hfit). now rewrite Hline.
  - reflexivity.
  - intros environ k.
    rewrite (run_fit [prog; lit "STATUS"] environ k) by (simpl; lia || exact Hfit).
    rewrite Hline. unfold calls.
    destruct (received k) as [|d]; [reflexivity|].
    destruct (_ <? 4096); reflexivity.
Qed.

(** C7 as stated fails on the length: the request for [STATUS] has eight
    characters, not five. *)
Lemma status_request_is_not_five_characters :
  ~ (exists r, request status_argv = Val r /\
               r = lit "STATUS " ++ [LF] /\ length r = 5%nat).
Proof.
  intros [r [_ [Hr Hlen]]]. subst r. vm_compute in Hlen. discriminate Hlen.
Qed.

(** ** C8: the endpoint *)

(** C8.  Whatever the arguments, the environment and the answers of the
    kernel, every [connect] of a run goes to the one address built in
    [main]: family [AF_VSOCK], context identifier [VMADDR_CID_HOST], port
    9999; and a run that gets past the argument check issues that
    [connect] as its second system call. *)
Theorem endpoint_is_fixed argv environ k :
  svm_family addr = AF_VSOCK /\
  svm_cid addr = VMADDR_CID_HOST /\
  svm_port addr = 9999 /\
  (forall fd a len,
     In (EvConnect fd a len) (calls (run argv environ k)) ->
     a = addr /\ len = sizeof_sockaddr_vm) /\
  (2 <= Z.of_nat (length argv) ->
   nth_error (calls (run argv environ k)) 1 =
   Some (EvConnect (sock k) addr sizeof_sockaddr_vm)).
Proof.
  split; [reflexivity|]. split; [reflexivity|]. split; [reflexivity|].
  destruct (Z.lt_ge_cases (Z.of_nat (length argv)) 2) as [Hlt|Hge].
  - destruct (run_usage argv environ k Hlt) as [_ [Hcalls _]].
    rewrite Hcalls. split; [intros fd a len []|lia].
  - assert (Hargc : 2 <= Z.of_nat (length argv)) by lia.
    unfold run, run_on, calls. rewrite (main_shape k argv Hargc).
    assert (Hin : forall out fd a len,
               In (EvConnect fd a len) (exchange k out) ->
               a = addr /\ len = sizeof_sockaddr_vm).
    { intros out fd a len [H|[H|[H|[H|[]]]]]; try discriminate H.
      injection H as _ <- <-. split; reflexivity. }
    assert (Hin' : forall fd a len,
               In (EvConnect fd a len) (opening k) ->
               a = addr /\ len = sizeof_sockaddr_vm).
    { intros fd a len [H|[H|[]]]; try discriminate H.
      injection H as _ <- <-. split; reflexivity. }
    destruct (built [] (skipn 1 argv)) as [text|w| |n].
    + cbv zeta. destruct (received k) as [|d].
      * split; [apply Hin | reflexivity].
      * destruct (_ <? 4096); (split; [apply Hin | reflexivity]).
    + split; [apply Hin' | reflexivity].
    + split; [apply Hin' | reflexivity].
    + split; [apply Hin' | reflexivity].
Qed.

Lemma endpoint_is_fixed_witness :
  nth_error (calls (run status_argv [lit "VSOCK_PORT=1"] ok_peer)) 1 =
  Some (EvConnect 3 addr 16).
Proof.
  apply (endpoint_is_fixed status_argv [lit "VSOCK_PORT=1"] ok_peer).
  vm_compute. discriminate.
Defined.

(** ** C9: one exchange *)

(** C9, amended.  A run that gets past the argument check and in which
    [send] returns issues exactly four system calls, in this order: one
    [socket], one [connect], one [send], one [recv], on the success path
    and on the failure path alike.  A run in which [send] raises SIGPIPE
    is killed there: it has issued one [socket], one [connect] and that
    [send], and issues no [recv]. *)
Theorem one_exchange_unless_killed argv environ w :
  2 <= Z.of_nat (length argv) ->
  args_fit argv ->
  let o := run_on argv environ w in
  let s := os_socket w AF_VSOCK SOCK_STREAM 0 in
  let out := line argv in
  let sent := EvSend s out (Z.of_nat (length out)) 0 in
  (forall n,
     os_send w s out (Z.of_nat (length out)) 0 = Sent n ->
     calls o =
     [EvSocket AF_VSOCK SOCK_STREAM 0; EvConnect s addr sizeof_sockaddr_vm;
      sent; EvRecv s 4096 0]) /\
  (os_send w s out (Z.of_nat (length out)) 0 = Sigpipe ->
   calls o =
   [EvSocket AF_VSOCK SOCK_STREAM 0; EvConnect s addr sizeof_sockaddr_vm;
    sent] /\
   how o = Killed SIGPIPE /\
   stdout o = []).
Proof.
  intros Hargc Hfit o s out sent. subst o s out sent.
  unfold run_on, calls, stdout. rewrite (main_shape_on w argv Hargc).
  rewrite (built_fit [] _ Hfit), app_nil_l. cbv zeta. fold (line argv).
  unfold send_meets, sending, fd_of. split.
  - intros n ->. destruct (found w) as [|d]; [reflexivity|].
    destruct (_ <? 4096); reflexivity.
  - intros ->. repeat split.
Qed.

Lemma one_exchange_unless_killed_witness :
  calls (run_on status_argv [] (returning ok_peer)) =
  [EvSocket AF_VSOCK SOCK_STREAM 0; EvConnect 3 addr sizeof_sockaddr_vm;
   EvSend 3 (line status_argv) (Z.of_nat (length (line status_argv))) 0;
   EvRecv 3 4096 0].
Proof.
  apply (one_exchange_unless_killed status_argv [] (returning ok_peer))
    with (n := 8).
  - vm_compute. discriminate.
  - fit_sample.
  - reflexivity.
Defined.

(** C9 as stated fails when the peer has shut the connection down: the
    run gets past the argument check, [send] raises SIGPIPE, and the
    process dies after [socket], [connect] and [send], without a [recv]. *)
Lemma sigpipe_ends_run_before_recv :
  let o := run_on status_argv [] gone_peer in
  2 <= Z.of_nat (length status_argv) /\
  how o = Killed SIGPIPE /\
  calls o = [EvSocket 40 1 0; EvConnect 3 addr 16;
             EvSend 3 (lit "STATUS " ++ [LF]) 8 0] /\
  ~ In (EvRecv 3 4096 0) (calls o).
Proof.
  vm_compute. split; [discriminate|]. split; [reflexivity|].
  split; [reflexivity|].
  intros [H|[H|[H|[]]]]; discriminate H.
Qed.

(** ** C10: the receive buffer *)

(** [recv] stays inside an array that has room for [len] elements, and
    leaves the array at its size. *)
Lemma recv_within w fd buf len flags p :
  0 <= len <= Z.of_nat (length buf) ->
  exists n buf' p',
    recv w fd buf len flags p = (Val (n, buf'), p') /\
    length buf' = length buf /\ -1 <= n <= len.
Proof.
  intros Hlen. unfold recv, bind, log, note_arena, ret.
  destruct (os_recv w fd len flags) as [|d].
  - eexists _, _, _. split; [reflexivity|]. split; [reflexivity | lia].
  - cbv zeta.
    assert (Hgot : (length (firstn (Z.to_nat len) d) <= Z.to_nat len)%nat)
      by (rewrite length_firstn; lia).
    destruct (Nat.leb_spec (length (firstn (Z.to_nat len) d)) (length buf))
      as [Hfit|Hover]; [|lia].
    eexists _, _, _. split; [reflexivity|].
    rewrite length_app, length_skipn. split; lia.
Qed.

(** A reply longer than the array makes the store run past its end. *)
Lemma recv_overrun w fd buf len flags p d :
  os_recv w fd len flags = Delivered d ->
  (length buf < length (firstn (Z.to_nat len) d))%nat ->
  fst (recv w fd buf len flags p) = Fault.
Proof.
  intros Hd Hover. unfold recv, bind, log, note_arena. rewrite Hd. cbv zeta.
  destruct (Nat.leb_spec (length (firstn (Z.to_nat len) d)) (length buf))
    as [Hfit|_]; [lia | reflexivity].
Qed.

Ltac no_recv_logged :=
  let H := fresh in
  intros ? ? ? H; cbn in H;
  repeat (destruct H as [H|H]; [discriminate H|]); contradiction H.

Ltac recv_logged :=
  let H := fresh in
  intros ? ? ? H; cbn in H;
  repeat (destruct H as [H|H]; [try discriminate H|]);
  [injection H as _ <- _; split; reflexivity | contradiction H].

(** C10.  Every access to the receive buffer is in bounds: no run stores
    or reads outside an array.  The array handed to [recv] has 4096
    elements, all zero, and [recv] is told that size and stores no more
    than the array holds; on the success path fewer than 4096 elements
    were stored and printing examines none beyond those; on every other
    path no element of the buffer is read and nothing is printed. *)
Theorem receive_buffer_in_bounds argv environ w :
  let o := run_on argv environ w in
  how o <> Undefined /\
  (forall fd len flags,
     In (EvRecv fd len flags) (calls o) ->
     arena (final o) = repeat NUL 4096 /\ len = 4096) /\
  (stored (final o) <= length (arena (final o)) <= 4096)%nat /\
  (how o = Exit EXIT_SUCCESS ->
   (examined (final o) <= stored (final o) < 4096)%nat) /\
  (how o <> Exit EXIT_SUCCESS ->
   examined (final o) = 0%nat /\ stdout o = []).
Proof.
  intros o. subst o.
  destruct (Z.lt_ge_cases (Z.of_nat (length argv)) 2) as [Hlt|Hge].
  - destruct (run_usage_on argv environ w Hlt)
      as (Hhow & Hcalls & Hout & Har & Hst & Hex).
    rewrite Hhow, Hcalls, Har, Hst, Hex, Hout.
    split; [discriminate|]. split; [intros fd len flags []|].
    split; [simpl; lia|]. split; [discriminate|]. intros _. split; reflexivity.
  - assert (Hargc : 2 <= Z.of_nat (length argv)) by lia.
    assert (Hroom : length buf_handed = 4096%nat) by apply repeat_length.
    unfold run_on, calls, stdout. rewrite (main_shape_on w argv Hargc).
    destruct (built_cases (skipn 1 argv) []) as [[_ ->]|[_ ->]].
    + cbv zeta. destruct (send_meets w _) as [n|].
      * destruct (found w) as [|d].
        -- cbn [how final settled syscalls arena stored examined out_stream].
           rewrite Hroom.
           split; [discriminate|]. split; [recv_logged|].
           split; [lia|]. split; [discriminate|]. intros _. split; reflexivity.
        -- pose proof (taken_length d) as Hcap.
           pose proof (probed_length (taken d)) as Hpr.
           destruct (Z.ltb_spec (Z.of_nat (length (taken d))) 4096) as [Hs|Hf];
             cbn [how final settled syscalls arena stored examined out_stream];
             rewrite Hroom.
           ++ split; [discriminate|]. split; [recv_logged|].
              split; [lia|]. split; [intros _; lia|].
              intros Hno. now contradiction Hno.
           ++ split; [discriminate|]. split; [recv_logged|].
              split; [lia|]. split; [discriminate|].
              intros _. split; reflexivity.
      * cbn [how final settled syscalls arena stored examined out_stream].
        split; [discriminate|]. split; [no_recv_logged|].
        split; [simpl; lia|]. split; [discriminate|].
        intros _. split; reflexivity.
    + cbn [how final settled syscalls arena stored examined out_stream
           write_stderr].
      split; [discriminate|]. split; [no_recv_logged|].
      split; [simpl; lia|]. split; [discriminate|].
      intros _. split; reflexivity.
Qed.

(** * Further properties of [m3_string_format] and [main] *)

Lemma fitsb_spec t : fitsb t = true <-> fits t.
Proof. unfold fitsb, fits. apply Z.leb_le. Qed.

Lemma until_nul_nul_free t : nul_free (until_nul t).
Proof.
  unfold nul_free. induction t as [|c t IH]; simpl; [constructor|].
  destruct (Ascii.eqb_spec c NUL) as [|Hc]; constructor; assumption.
Qed.

Lemma until_nul_app_free a b : nul_free a -> until_nul (a ++ b) = a ++ until_nul b.
Proof.
  induction 1 as [|c a Hc _ IH]; simpl; [reflexivity|].
  destruct (Ascii.eqb_spec c NUL); [contradiction | now rewrite IH].
Qed.

Lemma spaced_app T1 T2 : spaced (T1 ++ T2) = spaced T1 ++ spaced T2.
Proof. unfold spaced. now rewrite map_app, concat_app. Qed.

Lemma spaced_cons t T : spaced (t :: T) = until_nul t ++ [SP] ++ spaced T.
Proof. unfold spaced. simpl. now rewrite <- app_assoc. Qed.

(** Two texts that agree up to their first space agree on what precedes
    it and on what follows it. *)
Lemma first_space_splits t : forall t' r r',
  space_free t -> space_free t' ->
  t ++ SP :: r = t' ++ SP :: r' -> t = t' /\ r = r'.
Proof.
  induction t as [|c t IH]; intros t' r r' Ht Ht' Heq.
  - destruct t' as [|c' t']; simpl in Heq.
    + injection Heq as ->. split; reflexivity.
    + injection Heq as Hc _. inversion Ht' as [|? ? Hc' _]; subst.
      now contradiction Hc'.
  - inversion Ht as [|? ? Hc Ht0]; subst.
    destruct t' as [|c' t']; simpl in Heq.
    + injection Heq as Hc' _. now contradiction Hc.
    + injection Heq as -> Heq. inversion Ht' as [|? ? _ Ht0']; subst.
      destruct (IH t' r r' Ht0 Ht0' Heq) as [-> ->]. split; reflexivity.
Qed.

Lemma spaced_plain_inj T : forall T',
  Forall plain_token T -> Forall plain_token T' ->
  spaced T = spaced T' -> T = T'.
Proof.
  induction T as [|t T IH]; intros T' HT HT' Heq.
  - destruct T' as [|t' T']; [reflexivity|].
    rewrite spaced_cons in Heq. destruct (until_nul t'); discriminate Heq.
  - destruct T' as [|t' T'].
    + rewrite spaced_cons in Heq. destruct (until_nul t); discriminate Heq.
    + inversion HT as [|? ? [Hn Hs] HT0]; subst.
      inversion HT' as [|? ? [Hn' Hs'] HT0']; subst.
      rewrite !spaced_cons, (until_nul_free t Hn), (until_nul_free t' Hn') in Heq.
      destruct (first_space_splits t t' _ _ Hs Hs' Heq) as [-> Hrest].
      now rewrite (IH T' HT0 HT0' Hrest).
Qed.

(** ** The formatting function *)

(** X1.  [m3_string_format] at the format ["%s "] has two outcomes and the
    length of the argument decides between them: up to [INT_MAX - 2]
    characters it returns, otherwise it throws its [runtime_error]; it
    never reads outside the argument and leaves the process state as it
    found it. *)
Theorem m3_string_format_outcome t p :
  m3_string_format (c_array t) p =
  (if fitsb t then Val (until_nul t ++ [SP])
   else Throw "Error during formatting.", p).
Proof.
  destruct (fitsb t) eqn:Hb.
  - apply m3_string_format_fits. now apply fitsb_spec.
  - apply m3_string_format_throws. intros Hfit.
    apply fitsb_spec in Hfit. congruence.
Qed.

(** X2.  What [m3_string_format] returns is the C string it was given
    followed by one space: one character longer than the argument, with
    no terminator inside (the comment of line 19), and short enough for
    its length plus the terminator to be an [int]. *)
Theorem m3_string_format_text t p r p' :
  nul_free t ->
  m3_string_format (c_array t) p = (Val r, p') ->
  r = t ++ [SP] /\
  length r = S (length t) /\
  nul_free r /\
  Z.of_nat (length r) + 1 <= CInt.INT_MAX /\
  p' = p.
Proof.
  intros Hfree Hrun. rewrite m3_string_format_outcome in Hrun.
  destruct (fitsb t) eqn:Hb; [|discriminate Hrun].
  apply fitsb_spec in Hb. unfold fits in Hb.
  rewrite (until_nul_free t Hfree) in *.
  injection Hrun as <- <-.
  split; [reflexivity|]. rewrite length_app. simpl length.
  split; [lia|]. split; [|split; [lia | reflexivity]].
  unfold nul_free in *. apply Forall_app. split; [assumption|].
  constructor; [discriminate | constructor].
Qed.

Lemma m3_string_format_text_witness :
  lit "STATUS " = lit "STATUS" ++ [SP] /\
  length (lit "STATUS ") = S (length (lit "STATUS")) /\
  nul_free (lit "STATUS ") /\
  Z.of_nat (length (lit "STATUS ")) + 1 <= CInt.INT_MAX /\
  fresh_process = fresh_process.
Proof.
  apply (m3_string_format_text (lit "STATUS") fresh_process
                               (lit "STATUS ") fresh_process).
  - repeat constructor; vm_compute; discriminate.
  - vm_compute. reflexivity.
Defined.

(** ** Runs that throw *)

(** X3.  A run that gets past the argument check ends by the uncaught
    exception exactly when one of its arguments does not fit the
    formatting step; it has then opened and connected the socket, and
    neither sent, received nor printed anything. *)
Theorem overlong_argument_aborts_after_connect argv environ k :
  2 <= Z.of_nat (length argv) ->
  let o := run argv environ k in
  (how o = Abort <-> ~ args_fit argv) /\
  (how o = Abort ->
   calls o = [EvSocket AF_VSOCK SOCK_STREAM 0;
              EvConnect (sock k) addr sizeof_sockaddr_vm] /\
   stdout o = []).
Proof.
  intros Hargc o. subst o. unfold run, run_on, calls, stdout, args_fit.
  rewrite (main_shape k argv Hargc).
  destruct (built_cases (skipn 1 argv) []) as [[Hall ->]|[Hnot ->]].
  - cbv zeta.
    destruct (received k) as [|d].
    + split; [split; [discriminate | contradiction] | discriminate].
    + destruct (_ <? 4096);
        (split; [split; [discriminate | contradiction] | discriminate]).
  - split; [split; [intros _; exact Hnot | reflexivity] |].
    intros _. split; reflexivity.
Qed.

Lemma overlong_argument_aborts_after_connect_witness :
  let o := run overlong_argv [] ok_peer in
  how o = Abort /\
  calls o = [EvSocket AF_VSOCK SOCK_STREAM 0;
             EvConnect (sock ok_peer) addr sizeof_sockaddr_vm] /\
  stdout o = [].
Proof.
  assert (Hargc : 2 <= Z.of_nat (length overlong_argv)).
  { unfold overlong_argv. cbn [length]. lia. }
  destruct (overlong_argument_aborts_after_connect overlong_argv [] ok_peer
              Hargc) as [Hiff Hthen].
  assert (Habort : how (run overlong_argv [] ok_peer) = Abort).
  { apply Hiff. unfold args_fit, overlong_argv. cbn [skipn].
    intros Hall. apply Forall_inv in Hall. unfold fits in Hall.
    rewrite until_nul_free in Hall.
    - rewrite repeat_length, Z2Nat.id in Hall by lia.
      unfold CInt.INT_MAX in Hall. lia.
    - apply Forall_forall. intros c Hc.
      apply repeat_spec in Hc. subst c. discriminate. }
  split; [exact Habort | exact (Hthen Habort)].
Defined.

(** ** What decides the result *)

(** X4.  The process exits with [EXIT_SUCCESS] exactly when there is at
    least one argument, every argument fits the formatting step, and the
    one [recv] delivers fewer than 4096 bytes. *)
Theorem success_exactly_on_short_reply argv environ k :
  how (run argv environ k) = Exit EXIT_SUCCESS <->
  2 <= Z.of_nat (length argv) /\
  args_fit argv /\
  exists d, received k = Delivered d /\ (length d < 4096)%nat.
Proof.
  destruct (Z.lt_ge_cases (Z.of_nat (length argv)) 2) as [Hlt|Hge].
  - destruct (run_usage argv environ k Hlt) as [Hhow _]. rewrite Hhow.
    split; [discriminate | intros [Hargc _]; lia].
  - assert (Hargc : 2 <= Z.of_nat (length argv)) by lia.
    unfold run, run_on, args_fit. rewrite (main_shape k argv Hargc).
    destruct (built_cases (skipn 1 argv) []) as [[Hall ->]|[Hnot ->]].
    + cbv zeta. destruct (received k) as [|d].
      * split; [discriminate | intros (_ & _ & d & Hd & _); discriminate Hd].
      * pose proof (taken_length d) as Hcap.
        destruct (Z.ltb_spec (Z.of_nat (length (taken d))) 4096) as [Hs|Hf].
        -- split; [|reflexivity]. intros _.
           split; [exact Hargc|]. split; [exact Hall|]. exists d.
           split; [reflexivity|].
           unfold taken in Hs. rewrite length_firstn in Hs. lia.
        -- split; [discriminate|]. intros (_ & _ & d' & Hd & Hshort).
           injection Hd as <-. rewrite (taken_short d Hshort) in Hf. lia.
    + split; [discriminate | intros (_ & Hall & _); contradiction].
Qed.

(** X5.  Nothing the kernel answers to [socket], [connect] or [send]
    reaches the result: two runs on the same arguments whose [recv] finds
    the same end alike, with the same exit status and the same output on
    both streams, whatever the environment. *)
Theorem only_recv_decides argv environ environ' k k' :
  received k = received k' ->
  how (run argv environ k) = how (run argv environ' k') /\
  stdout (run argv environ k) = stdout (run argv environ' k') /\
  stderr (run argv environ k) = stderr (run argv environ' k').
Proof.
  intros Hsame. unfold run, run_on, stdout, stderr.
  destruct (Z.lt_ge_cases (Z.of_nat (length argv)) 2) as [Hlt|Hge].
  - rewrite (main_usage (returning k) argv Hlt), (main_usage (returning k') argv Hlt).
    repeat split.
  - assert (Hargc : 2 <= Z.of_nat (length argv)) by lia.
    rewrite (main_shape k argv Hargc), (main_shape k' argv Hargc), Hsame.
    destruct (built [] (skipn 1 argv)) as [text|w| |n]; [|repeat split..].
    cbv zeta. destruct (received k') as [|d]; [repeat split|].
    destruct (_ <? 4096); repeat split.
Qed.

Lemma only_recv_decides_witness :
  how (run status_argv [] ok_peer) =
  how (run status_argv [lit "HOME=/root"] deaf_kernel) /\
  stdout (run status_argv [] ok_peer) =
  stdout (run status_argv [lit "HOME=/root"] deaf_kernel) /\
  stderr (run status_argv [] ok_peer) =
  stderr (run status_argv [lit "HOME=/root"] deaf_kernel).
Proof.
  apply (only_recv_decides status_argv [] [lit "HOME=/root"] ok_peer deaf_kernel).
  reflexivity.
Defined.

(** ** The request as a wire format *)

(** X6.  The request is not escaped: an argument with a space inside
    yields the same request as the two arguments the space separates. *)
Theorem space_in_argument_is_a_boundary prog prog' T1 a b T2 :
  nul_free a ->
  Forall fits (T1 ++ [a ++ [SP] ++ b] ++ T2) ->
  request (prog :: T1 ++ [a ++ [SP] ++ b] ++ T2) =
  Val (spaced T1 ++ a ++ [SP] ++ until_nul b ++ [SP] ++ spaced T2 ++ [LF]) /\
  request (prog' :: T1 ++ [a; b] ++ T2) =
  request (prog :: T1 ++ [a ++ [SP] ++ b] ++ T2).
Proof.
  intros Ha Hfit.
  assert (Hone : until_nul (a ++ [SP] ++ b) = a ++ [SP] ++ until_nul b).
  { rewrite (until_nul_app_free a _ Ha). reflexivity. }
  assert (Hfit' : Forall fits (T1 ++ [a; b] ++ T2)).
  { apply Forall_app in Hfit as [H1 H2]. apply Forall_app in H2 as [Hab H2].
    apply Forall_inv in Hab. unfold fits in Hab.
    rewrite Hone, !length_app in Hab. simpl length in Hab.
    apply Forall_app. split; [exact H1|].
    apply Forall_app. split; [|exact H2].
    constructor; [|constructor; [|constructor]]; unfold fits.
    - rewrite (until_nul_free a Ha). lia.
    - lia. }
  rewrite (request_fit (prog :: _) Hfit), (request_fit (prog' :: _) Hfit').
  unfold line. cbn [skipn].
  rewrite !spaced_app, !spaced_cons, Hone, (until_nul_free a Ha).
  change (spaced []) with (@nil ascii).
  repeat (rewrite <- app_assoc; cbn [app]).
  split; reflexivity.
Qed.

Lemma space_in_argument_is_a_boundary_witness :
  request [prog_name; lit "SET"; lit "a b"] =
  Val (lit "SET a b " ++ [LF]) /\
  request [prog_name; lit "SET"; lit "a"; lit "b"] =
  request [prog_name; lit "SET"; lit "a b"].
Proof.
  apply (space_in_argument_is_a_boundary prog_name prog_name
           [lit "SET"] (lit "a") (lit "b") []).
  - repeat constructor; vm_compute; discriminate.
  - fit_sample.
Defined.

(** X7.  When no argument contains a space the request determines the
    arguments: two argument sequences with the same request are equal. *)
Theorem request_determines_plain_tokens prog prog' T T' :
  Forall plain_token T -> Forall plain_token T' ->
  Forall fits T -> Forall fits T' ->
  request (prog :: T) = request (prog' :: T') ->
  T = T'.
Proof.
  intros HT HT' Hfit Hfit' Heq.
  rewrite (request_fit (prog :: T) Hfit) in Heq.
  rewrite (request_fit (prog' :: T') Hfit') in Heq.
  unfold line in Heq. cbn [skipn] in Heq.
  injection Heq as Heq. apply app_inv_tail in Heq.
  now apply spaced_plain_inj.
Qed.

Lemma request_determines_plain_tokens_witness :
  [lit "GET"; lit "key"] = [lit "GET"; lit "key"].
Proof.
  apply (request_determines_plain_tokens prog_name (lit "./send")
           [lit "GET"; lit "key"] [lit "GET"; lit "key"]).
  - repeat constructor; vm_compute; discriminate.
  - repeat constructor; vm_compute; discriminate.
  - fit_sample.
  - fit_sample.
  - reflexivity.
Defined.

(** ** The reply *)

(** X8.  A peer that closes the stream without a reply is reported as a
    success: [recv] returns 0, the process prints the bare label and
    exits with status 0, without reading a byte of the buffer. *)
Theorem end_of_stream_is_success argv environ k :
  2 <= Z.of_nat (length argv) ->
  args_fit argv ->
  received k = Delivered [] ->
  let o := run argv environ k in
  how o = Exit EXIT_SUCCESS /\
  stdout o = lit "Value: " /\
  stored (final o) = 0%nat /\
  examined (final o) = 0%nat.
Proof.
  intros Hargc Hfit Hrecv o. subst o.
  rewrite (run_fit argv environ k Hargc Hfit), Hrecv.
  repeat split.
Qed.

Lemma end_of_stream_is_success_witness :
  let o := run status_argv [] silent_peer in
  how o = Exit EXIT_SUCCESS /\
  stdout o = lit "Value: " /\
  stored (final o) = 0%nat /\
  examined (final o) = 0%nat.
Proof.
  apply (end_of_stream_is_success status_argv [] silent_peer).
  - vm_compute. discriminate.
  - fit_sample.
  - reflexivity.
Defined.

(** X9.  Standard output is written on the success path only, and what is
    written is the label followed by a text without zero byte of at most
    4095 characters, a prefix of what [recv] delivered. *)
Theorem stdout_is_label_and_text argv environ k :
  let o := run argv environ k in
  (stdout o <> [] <-> how o = Exit EXIT_SUCCESS) /\
  (stdout o = [] \/
   exists v rest,
     stdout o = lit "Value: " ++ v /\
     received k = Delivered (v ++ rest) /\
     nul_free v /\ (length v < 4096)%nat).
Proof.
  intros o. subst o.
  assert (Hpre : forall d, exists rest, d = until_nul d ++ rest).
  { induction d as [|c d [rest IH]]; simpl; [now exists []|].
    destruct (Ascii.eqb c NUL); [now exists (c :: d)|].
    exists rest. simpl. now rewrite <- IH. }
  destruct (Z.lt_ge_cases (Z.of_nat (length argv)) 2) as [Hlt|Hge].
  - destruct (run_usage argv environ k Hlt) as (Hhow & _ & Hout & _).
    rewrite Hhow, Hout. split; [|now left].
    split; [intros H; now contradiction H | discriminate].
  - assert (Hargc : 2 <= Z.of_nat (length argv)) by lia.
    unfold run, run_on, stdout. rewrite (main_shape k argv Hargc).
    destruct (built [] (skipn 1 argv)) as [text|w| |n];
      [|split; [split; [intros H; now contradiction H | discriminate] | now left]..].
    cbv zeta. destruct (received k) as [|d].
    + split; [split; [intros H; now contradiction H | discriminate] | now left].
    + pose proof (taken_length d) as Hcap.
      destruct (Z.ltb_spec (Z.of_nat (length (taken d))) 4096) as [Hs|Hf].
      * assert (Hd : taken d = d).
        { apply taken_short. unfold taken in Hs.
          rewrite length_firstn in Hs. lia. }
        rewrite Hd in *. cbn [how final settled out_stream].
        split; [split; [reflexivity | discriminate]|].
        right. destruct (Hpre d) as [rest Hrest].
        exists (until_nul d), rest.
        split; [reflexivity|]. split; [now rewrite <- Hrest|].
        split; [apply until_nul_nul_free|].
        pose proof (until_nul_length d). lia.
      * split; [split; [intros H; now contradiction H | discriminate] | now left].
Qed.
